(** * libbase: [android-base/strings.h] and [android-base/result.h]

    A shallow embedding of [Trim] (strings.h) and of the error builder
    [Error<E>], the payload [ResultError<E>], the code wrapper [Errno],
    the factories [ErrnoError], [ErrorCode], [ErrorfImpl] and the
    propagation protocol [OkOrFail<Result<T, E>>] (result.h), followed by
    the properties of these functions. *)

From Stdlib Require Import ZArith String Ascii List Bool Arith Lia.
From Equations Require Import Equations.
Import ListNotations.

Local Open Scope list_scope.
Local Open Scope string_scope.

(* ===================================================================== *)
(** ** strings.h : [Trim] *)
(* ===================================================================== *)

Module Strings.

(** [std::string_view]: a window on a character sequence.  Only the
    operations [Trim] uses are modelled. *)
Definition string_view := list ascii.

Definition remove_prefix (n : nat) (sv : string_view) : string_view :=
  skipn n sv.

Definition remove_suffix (n : nat) (sv : string_view) : string_view :=
  firstn (length sv - n) sv.

Section Trim.

(** [isspace] of <ctype.h>; its answer depends on the locale, so the
    development is parametric in it. *)
Variable isspace : ascii -> bool.

(** First loop of [Trim]:
    [while (!sv.empty() && isspace(sv.front())) sv.remove_prefix(1);]
    A view is non-empty when it is [c :: rest], and then [sv.front()] is
    [c]. *)
Fixpoint skip_initial (sv : string_view) : string_view :=
  match sv with
  | [] => []
  | c :: rest =>
      if isspace c then skip_initial (remove_prefix 1 (c :: rest))
      else c :: rest
  end.

(** Second loop of [Trim]:
    [while (!sv.empty() && isspace(sv.back())) sv.remove_suffix(1);]
    For the non-empty view [c :: rest], [sv.back()] is [last rest c]. *)
Equations? skip_terminating (sv : string_view) : string_view
  by wf (length sv) lt :=
  skip_terminating [] := [];
  skip_terminating (c :: rest) with isspace (last rest c) => {
    | true := skip_terminating (remove_suffix 1 (c :: rest));
    | false := c :: rest }.
Proof.
  unfold remove_suffix. rewrite length_firstn. simpl. lia.
Qed.

(** [std::string Trim(T&& t)], with [t] already converted to a
    [std::string]. *)
Definition Trim (s : string) : string :=
  let sv := list_ascii_of_string s in
  let sv := skip_initial sv in
  let sv := skip_terminating sv in
  string_of_list_ascii sv.

(** Does the view begin (resp. end) with a whitespace character? *)
Definition begins_with_space (sv : string_view) : bool :=
  match sv with [] => false | c :: _ => isspace c end.

Definition ends_with_space (sv : string_view) : bool :=
  match sv with [] => false | c :: rest => isspace (last rest c) end.

End Trim.

(** [isspace] in the "C" locale: space, \t, \n, \v, \f, \r. *)
Definition isspace_C (c : ascii) : bool :=
  let n := nat_of_ascii c in
  (Nat.eqb n 32 || (Nat.leb 9 n && Nat.leb n 13))%bool.

Section Join.

(** [ContainerT] holds elements of type [A] and [SeparatorT] is [Sep];
    [show] and [show_sep] are the texts [std::ostream <<] writes for
    them. *)
Context {A Sep : Type}.
Variable show : A -> string.
Variable show_sep : Sep -> string.



End Join.

Section Consume.

(** [StartsWith] and [EndsWith] are declared in the header and defined
    elsewhere; [ConsumePrefix] and [ConsumeSuffix] are parametric in
    them. *)
Variable StartsWith : string_view -> string_view -> bool.
Variable EndsWith : string_view -> string_view -> bool.

(** [inline bool ConsumePrefix(std::string_view* s, std::string_view prefix)]
    The result pairs the returned flag with the view [*s] holds on
    return. *)
Definition ConsumePrefix (s prefix : string_view) : bool * string_view :=
  if negb (StartsWith s prefix) then (false, s)
  else (true, remove_prefix (length prefix) s).

(** [inline bool ConsumeSuffix(std::string_view* s, std::string_view suffix)] *)
Definition ConsumeSuffix (s suffix : string_view) : bool * string_view :=
  if negb (EndsWith s suffix) then (false, s)
  else (true, remove_suffix (length suffix) s).

End Consume.

(** Modelled from the spec: [StartsWith(s, prefix)] and
    [EndsWith(s, suffix)] are defined in strings.cpp, which is not among
    the sources; the header documents them as "Tests whether 's' starts
    with 'prefix'" and "Tests whether 's' ends with 'suffix'". *)
Fixpoint StartsWith (s prefix : string_view) : bool :=
  match prefix, s with
  | [], _ => true
  | _ :: _, [] => false
  | c :: prefix', d :: s' => (Ascii.eqb c d && StartsWith s' prefix')%bool
  end.

Definition EndsWith (s suffix : string_view) : bool :=
  StartsWith (rev s) (rev suffix).

End Strings.

(* ===================================================================== *)
(** ** result.h : the ambient platform error number *)
(* ===================================================================== *)

(** The only global the header reads and writes is [errno]; it is made an
    explicit component of the state that effectful operations thread. *)
Record World := mkWorld { errno : Z }.

(** A small state monad over [World]. *)
Definition M (A : Type) : Type := World -> A * World.

Definition ret {A : Type} (a : A) : M A := fun w => (a, w).

Definition bind {A B : Type} (m : M A) (k : A -> M B) : M B :=
  fun w => let (a, w') := m w in k a w'.

Notation "x <- m ;; k" := (bind m (fun x => k))
  (at level 61, m at next level, right associativity).

(** [int saved = errno;] and [errno = saved;] *)
Definition get_errno : M Z := fun w => (errno w, w).
Definition set_errno (e : Z) : M unit := fun _ => (tt, mkWorld e).

Definition run {A : Type} (m : M A) (w : World) : A := fst (m w).
Definition exec {A : Type} (m : M A) (w : World) : World := snd (m w).

(** An operand that [std::ostream << t] accepts: inserting it yields the
    text that reaches the stream, and may touch the platform state on the
    way (a user-defined [operator<<] is arbitrary code).  Operands that
    leave the stream in a failed state or change its formatting state
    (manipulators such as [std::setw], [std::hex]) are outside this
    representation. *)
Record Streamable := mkStreamable { insert : M string }.

(** A [std::string] operand: its insertion is its own text. *)
Definition stream_string (s : string) : Streamable := mkStreamable (ret s).

(** A stream operand whose insertion overwrites [errno] with [e]. *)
Definition clobbering (txt : string) (e : Z) : Streamable :=
  mkStreamable (_ <- set_errno e ;; ret txt).

(* ===================================================================== *)
(** ** result.h : error codes *)
(* ===================================================================== *)

(** What [Error<E>] asks of its code type [E]: [E] is constructible from
    the literal [0] (the initialiser [code_(0)] of [Error()]) and has a
    [print()] member. *)
Class CodeType (E : Type) := {
  of_zero : E;
  print : E -> string
}.

Module Errno.

(** [struct Errno { int val_; ... }]; an [int] is kept as a [Z], the
    header does no arithmetic on it. *)
Record t := mk { val_ : Z }.

(** [Errno() : val_(0) {}] *)
Definition default : t := mk 0.
(** [Errno(int e) : val_(e) {}] *)
Definition of_int (e : Z) : t := mk e.
(** [int value() const] *)
Definition value (e : t) : Z := val_ e.
(** [operator int() const { return value(); }] *)
Definition to_int (e : t) : Z := value e.

Section Print.
(** [strerror] of the C library. *)
Variable strerror : Z -> string.

(** [std::string print() const { return strerror(value()); }] *)
Definition print (e : t) : string := strerror (value e).

Definition code_type : CodeType t :=
  Build_CodeType t (of_int 0) print.
End Print.

(** A sample of the platform's table, used to run the examples. *)
Definition strerror_sample (n : Z) : string :=
  match n with
  | 0 => "Success"
  | 2 => "No such file or directory"
  | 5 => "Input/output error"
  | 13 => "Permission denied"
  | _ => "Unknown error"
  end%Z.

End Errno.

(* ===================================================================== *)
(** ** result.h : [ResultError<E>] and [expected] *)
(* ===================================================================== *)

(** Modelled from the spec: android-base/expected.h is not part of the
    sources at hand.  [expected<T, Err>] is the primitive that holds a
    value XOR an error; [unexpected(e)] builds the error arm, [ok()] asks
    which arm is held, [value()] and [error()] have the matching arm as
    their precondition (here: [None] on the other arm). *)
Inductive expected (T Err : Type) : Type :=
| Value (v : T)
| Unexpected (e : Err).
Arguments Value {T Err} v.
Arguments Unexpected {T Err} e.

Definition ok {T Err : Type} (x : expected T Err) : bool :=
  match x with Value _ => true | Unexpected _ => false end.

Definition value {T Err : Type} (x : expected T Err) : option T :=
  match x with Value v => Some v | Unexpected _ => None end.

Definition error {T Err : Type} (x : expected T Err) : option Err :=
  match x with Value _ => None | Unexpected e => Some e end.

Module ResultError.

(** [struct ResultError { std::string message_; E code_; }] *)
Record t (E : Type) := mk { message_ : string; code_ : E }.
Arguments mk {E} message_ code_.
Arguments message_ {E} _.
Arguments code_ {E} _.

Definition message {E : Type} (r : t E) : string := message_ r.
Definition code {E : Type} (r : t E) : E := code_ r.

(** [operator expected<T, ResultError<E>>() const] *)
Definition to_expected {E : Type} (T : Type) (r : t E)
  : expected T (t E) :=
  Unexpected (mk (message_ r) (code_ r)).

(** [std::ostream& operator<<(std::ostream& os, const ResultError<E>& t)] *)
Definition ostream_text {E : Type} (r : t E) : string := message r.

(** [bool operator==(const ResultError<E>& lhs, const ResultError<E>& rhs)],
    [code_eq] being the [==] of the code type [E]. *)
Definition op_eq {E : Type} (code_eq : E -> E -> bool) (lhs rhs : t E)
  : bool :=
  (String.eqb (message lhs) (message rhs)
   && code_eq (code lhs) (code rhs))%bool.

(** [bool operator!=(const ResultError<E>& lhs, const ResultError<E>& rhs)] *)
Definition op_ne {E : Type} (code_eq : E -> E -> bool) (lhs rhs : t E)
  : bool :=
  negb (op_eq code_eq lhs rhs).

End ResultError.

(** [template <typename T, typename E> using Result =
     expected<T, ResultError<E>>;] *)
Definition Result (T E : Type) : Type := expected T (ResultError.t E).

(* ===================================================================== *)
(** ** result.h : the builder [Error<E>] *)
(* ===================================================================== *)

(** The operand of [Error::operator<<]: the [if constexpr] separates a
    [ResultError<E>] from every other streamable type. *)
Inductive Operand (E : Type) : Type :=
| OpResultError (r : ResultError.t E)
| OpStream (t : Streamable).
Arguments OpResultError {E} r.
Arguments OpStream {E} t.

Module Error.

(** [std::stringstream ss_; E code_; const bool has_code_;]
    The stream is represented by the text it holds; its error state and
    its formatting state are not represented.  The representation is
    exact for a stream that has received only [std::string]s since it was
    made, which is why the statements about the contents of the buffer
    after appends are made for such builders (see [built] below). *)
Record t (E : Type) := mk { ss_ : string; code_ : E; has_code_ : bool }.
Arguments mk {E} ss_ code_ has_code_.
Arguments ss_ {E} _.
Arguments code_ {E} _.
Arguments has_code_ {E} _.

Section Builder.
Context {E : Type} `{CodeType E}.

(** [Error() : code_(0), has_code_(false) {}] *)
Definition default : t E := mk "" of_zero false.

(** [Error(P&& code) : code_(std::forward<P>(code)), has_code_(true) {}] *)
Definition of_code (c : E) : t E := mk "" c true.

(** The part of [operator<<] after the [if constexpr]:
    [int saved = errno; ss_ << t; errno = saved; return *this;] *)
Definition stream_insert (b : t E) (x : Streamable) : M (t E) :=
  saved <- get_errno ;;
  txt <- insert x ;;
  _ <- set_errno saved ;;
  ret (mk (ss_ b ++ txt) (code_ b) (has_code_ b)).

(** [Error& operator<<(T&& t)] *)
Definition op_shl (b : t E) (x : Operand E) : M (t E) :=
  match x with
  | OpResultError r =>
      let b' := if negb (has_code_ b)
                then mk (ss_ b) (ResultError.code r) (has_code_ b)
                else b in
      stream_insert b' (stream_string (ResultError.message r))
  | OpStream s => stream_insert b s
  end.

(** A chain [b << x1 << x2 << ...]. *)
Fixpoint op_shl_all (b : t E) (xs : list (Operand E)) : M (t E) :=
  match xs with
  | [] => ret b
  | x :: rest => b' <- op_shl b x ;; op_shl_all b' rest
  end.

(** [const std::string str() const] *)
Definition str (b : t E) : string :=
  let s := ss_ b in
  if has_code_ b then
    if String.eqb s "" then print (code_ b)
    else s ++ ": " ++ print (code_ b)
  else s.

(** [operator expected<T, ResultError<P>>() const], for a code type
    [P] reached from [E] by [conv] (the [static_cast<P>]). *)
Definition to_expected {P : Type} (T : Type) (conv : E -> P) (b : t E)
  : expected T (ResultError.t P) :=
  Unexpected (ResultError.mk (str b) (conv (code_ b))).

(** The conversion at [P = E]: the builder turned into a
    [Result<T, E>]. *)
Definition to_Result (T : Type) (b : t E) : Result T E :=
  to_expected T (fun c => c) b.

(** The private constructor
    [Error(bool has_code, E code, const std::string& message)]. *)
Definition of_parts (has_code : bool) (c : E) (message : string)
  : M (t E) :=
  op_shl (mk "" c has_code) (OpStream (stream_string message)).

End Builder.

End Error.

(* ===================================================================== *)
(** ** result.h : factories *)
(* ===================================================================== *)

(** [inline Error<Errno> ErrnoError() { return Error<Errno>(Errno{errno}); }] *)
Definition ErrnoError : M (Error.t Errno.t) :=
  e <- get_errno ;;
  ret (Error.of_code (Errno.of_int e)).

(** One element of the pack [args...]: the [if constexpr] of [ErrorCode]
    tells a [ResultError<E>] from any other argument, which is kept as the
    text the formatter renders for it. *)
Inductive Arg (E : Type) : Type :=
| ArgResultError (r : ResultError.t E)
| ArgOther (text : string).
Arguments ArgResultError {E} r.
Arguments ArgOther {E} text.

(** [E ErrorCode(E code)] and
    [E ErrorCode(E code, T&& t, const Args&... args)]. *)
Fixpoint ErrorCode {E : Type} (code : E) (args : list (Arg E)) : E :=
  match args with
  | [] => code
  | ArgResultError r :: rest => ErrorCode (ResultError.code r) rest
  | ArgOther _ :: rest => ErrorCode code rest
  end.

(** The text an argument contributes to a formatted message; a
    [ResultError] is rendered through its [operator<<]. *)
Definition Arg_text {E : Type} (a : Arg E) : string :=
  match a with
  | ArgResultError r => ResultError.ostream_text r
  | ArgOther s => s
  end.

Section Formatted.

(** [fmt::format] of the fmt library. *)
Variable format : string -> list (Arg Errno.t) -> string.

(** [inline Error<Errno> ErrorfImpl(const T&& fmt, const Args&... args)
     { return Error(false, ErrorCode(Errno{}, args...),
                    fmt::format(fmt, args...)); }] *)
Definition ErrorfImpl (fmt : string) (args : list (Arg Errno.t))
  : M (Error.t Errno.t) :=
  Error.of_parts false (ErrorCode Errno.default args) (format fmt args).

End Formatted.

(** [inline Error<Errno> ErrnoErrorfImpl(const T&& fmt, const Args&... args)
     { return Error<Errno>(true, Errno{errno}, fmt::format(fmt, args...)); }]
    The formatter is foreign code, so it is a state transformer here; the
    two constructor arguments [Errno{errno}] and [fmt::format(...)] are
    evaluated in an order the language leaves open, [code_first] picks
    it. *)
Definition ErrnoErrorfImpl
           (format : string -> list (Arg Errno.t) -> M string)
           (code_first : bool)
           (fmt : string) (args : list (Arg Errno.t))
  : M (Error.t Errno.t) :=
  if code_first then
    e <- get_errno ;;
    message <- format fmt args ;;
    Error.of_parts true (Errno.of_int e) message
  else
    message <- format fmt args ;;
    e <- get_errno ;;
    Error.of_parts true (Errno.of_int e) message.

(** Modelled from the spec: the formatting facility is an external
    collaborator; this model renders the positional replacement field
    [{}] only, which is all the scenarios use.  A field without an
    argument renders as nothing ([FMT_STRING] rejects such calls at
    compile time). *)
Fixpoint fmt_fields (fmt : string) (args : list string) : string :=
  match fmt with
  | EmptyString => EmptyString
  | String c rest =>
      match rest with
      | String c' rest' =>
          if (Ascii.eqb c "{" && Ascii.eqb c' "}")%bool then
            match args with
            | a :: args' => a ++ fmt_fields rest' args'
            | [] => fmt_fields rest' []
            end
          else String c (fmt_fields rest args)
      | EmptyString => String c EmptyString
      end
  end.

Definition fmt_format {E : Type} (fmt : string) (args : list (Arg E))
  : string :=
  fmt_fields fmt (map Arg_text args).

(* ===================================================================== *)
(** ** result.h : [OkOrFail<Result<T, E>>] *)
(* ===================================================================== *)

Module OkOrFail.

(** [struct OkOrFail<Result<T, E>> { V val_; ... }] *)
Record t (T E : Type) := mk { val_ : Result T E }.
Arguments mk {T E} val_.
Arguments val_ {T E} _.

Section Protocol.
Context {T E : Type}.

(** [static bool IsOk(const V& val) { return val.ok(); }] *)
Definition IsOk (val : Result T E) : bool := ok val.

(** [static T Unwrap(V&& val) { return std::move(val.value()); }] *)
Definition Unwrap (val : Result T E) : option T := value val.

(** [static OkOrFail<V> Fail(V&& v)
     { assert(!IsOk(v)); return OkOrFail<V>{std::move(v)}; }]
    [None] stands for the failed assertion. *)
Definition Fail (v : Result T E) : option (t T E) :=
  if negb (IsOk v) then Some (mk v) else None.

(** [operator S() && { return val_.error().code(); }], [conv] being
    the conversion from [E] to [S]. *)
Definition to_code {S : Type} (conv : E -> S) (f : t T E) : option S :=
  match error (val_ f) with
  | Some e => Some (conv (ResultError.code e))
  | None => None
  end.

(** [operator Result<U, E>() && { return val_.error(); }] *)
Definition to_Result (U : Type) (f : t T E) : option (Result U E) :=
  match error (val_ f) with
  | Some e => Some (ResultError.to_expected U e)
  | None => None
  end.

(** [static std::string ErrorMessage(const V& val)] *)
Definition ErrorMessage (val : Result T E) : option string :=
  match error val with
  | Some e => Some (ResultError.message e)
  | None => None
  end.

End Protocol.

End OkOrFail.

(* ===================================================================== *)
(** ** Vocabulary of the properties *)
(* ===================================================================== *)

(** The first and the last [ResultError] of an argument pack. *)
Fixpoint first_ResultError {E : Type} (args : list (Arg E))
  : option (ResultError.t E) :=
  match args with
  | [] => None
  | ArgResultError r :: _ => Some r
  | ArgOther _ :: rest => first_ResultError rest
  end.

Definition last_ResultError {E : Type} (args : list (Arg E))
  : option (ResultError.t E) :=
  first_ResultError (rev args).

Definition code_or {E : Type} (d : E) (o : option (ResultError.t E)) : E :=
  match o with Some r => ResultError.code r | None => d end.

(** The operands of a chain of [<<], seen as an argument pack. *)
Definition Operand_arg {E : Type} (x : Operand E) : Arg E :=
  match x with
  | OpResultError r => ArgResultError r
  | OpStream _ => ArgOther ""
  end.

(** The text an operand of [<<] adds to the buffer when it is inserted in
    the world [w]. *)
Definition Operand_text {E : Type} (w : World) (x : Operand E) : string :=
  match x with
  | OpResultError r => ResultError.message r
  | OpStream s => run (insert s) w
  end.


(** The operands that keep a stream in its initial state: a
    [std::string], and a [ResultError], of which [operator<<] streams the
    message, a [std::string]. *)
Inductive Plain (E : Type) : Type :=
| PlainString (s : string)
| PlainResultError (r : ResultError.t E).
Arguments PlainString {E} s.
Arguments PlainResultError {E} r.

Definition Plain_operand {E : Type} (p : Plain E) : Operand E :=
  match p with
  | PlainString s => OpStream (stream_string s)
  | PlainResultError r => OpResultError r
  end.



(** The builder as a constructor's initialiser list leaves it, stream
    untouched: [Error()] is [fresh false E(0)], [Error(c)] is
    [fresh true c], and the private constructor starts its body from
    [fresh has_code code]. *)
Definition fresh {E : Type} (has_code : bool) (c : E) : Error.t E :=
  Error.mk "" c has_code.

(** A builder that has received only strings and [ResultError]s since it
    was made. *)
Definition built {E : Type} (has_code : bool) (c : E) (ps : list (Plain E))
           (w : World) : Error.t E :=
  run (Error.op_shl_all (fresh has_code c) (map Plain_operand ps)) w.

(** How a builder comes to exist: one of the two public constructors. *)
Definition construct {E : Type} `{CodeType E} (c : option E) : Error.t E :=
  match c with
  | Some c => Error.of_code c
  | None => Error.default
  end.

(* ===================================================================== *)
(** ** Properties of [Trim] *)
(* ===================================================================== *)

Section TrimFacts.

Local Open Scope list_scope.

Variable isspace : ascii -> bool.

Abbreviation skip_initial := (Strings.skip_initial isspace).
Abbreviation skip_terminating := (Strings.skip_terminating isspace).
Abbreviation begins_with_space := (Strings.begins_with_space isspace).
Abbreviation ends_with_space := (Strings.ends_with_space isspace).

Lemma skip_initial_split (sv : Strings.string_view) :
  exists l, sv = l ++ skip_initial sv /\ forallb isspace l = true.
Proof.
  induction sv as [|c rest [l [Hl Hs]]]; simpl.
  - exists []. auto.
  - destruct (isspace c) eqn:Hc.
    + exists (c :: l). simpl. rewrite Hc, Hs. split; [congruence | reflexivity].
    + exists []. auto.
Qed.

Lemma skip_initial_begins (sv : Strings.string_view) :
  begins_with_space (skip_initial sv) = false.
Proof.
  induction sv as [|c rest IH]; simpl; [reflexivity|].
  destruct (isspace c) eqn:Hc; [exact IH | simpl; exact Hc].
Qed.

Lemma skip_initial_fixed (sv : Strings.string_view) :
  begins_with_space sv = false -> skip_initial sv = sv.
Proof.
  destruct sv as [|c rest]; simpl; [reflexivity|].
  intros ->. reflexivity.
Qed.

Lemma last_cons_default (d c : ascii) (rest : list ascii) :
  last (d :: rest) c = last rest d.
Proof.
  revert d c. induction rest as [|e rest IH]; intros d c; [reflexivity|].
  change (last (d :: e :: rest) c) with (last (e :: rest) c).
  rewrite (IH e c), (IH e d). reflexivity.
Qed.

Lemma remove_suffix_last (c : ascii) (rest : list ascii) :
  c :: rest = Strings.remove_suffix 1 (c :: rest) ++ [last rest c].
Proof.
  unfold Strings.remove_suffix.
  replace (length (c :: rest) - 1) with (length rest) by (simpl; lia).
  revert c. induction rest as [|d rest IH]; intros c; [reflexivity|].
  rewrite last_cons_default.
  change (firstn (length (d :: rest)) (c :: d :: rest))
    with (c :: firstn (length rest) (d :: rest)).
  simpl app. f_equal. apply IH.
Qed.

Lemma skip_terminating_split (sv : Strings.string_view) :
  exists r, sv = skip_terminating sv ++ r /\ forallb isspace r = true.
Proof.
  funelim (Strings.skip_terminating isspace sv).
  - exists []. auto.
  - destruct H as [r [Hr Hs]].
    exists (r ++ [last rest c]). split.
    + rewrite app_assoc, <- Hr. apply remove_suffix_last.
    + rewrite forallb_app, Hs. simpl. rewrite Heq. reflexivity.
  - exists []. rewrite app_nil_r. auto.
Qed.

Lemma skip_terminating_ends (sv : Strings.string_view) :
  ends_with_space (skip_terminating sv) = false.
Proof.
  funelim (Strings.skip_terminating isspace sv).
  - reflexivity.
  - exact H.
  - simpl. exact Heq.
Qed.

Lemma skip_terminating_fixed (sv : Strings.string_view) :
  ends_with_space sv = false -> skip_terminating sv = sv.
Proof.
  destruct sv as [|c rest]; simpl; intros Hc.
  - reflexivity.
  - simp skip_terminating. rewrite Hc. reflexivity.
Qed.

(** Removing trailing characters never uncovers a leading whitespace. *)
Lemma skip_terminating_begins (sv : Strings.string_view) :
  begins_with_space sv = false ->
  begins_with_space (skip_terminating sv) = false.
Proof.
  intros Hb.
  destruct (skip_terminating_split sv) as [r [Hr _]].
  destruct (skip_terminating sv) as [|d body]; [reflexivity|].
  rewrite Hr in Hb. simpl in *. exact Hb.
Qed.

End TrimFacts.

Example Trim_example :
  Strings.Trim Strings.isspace_C "  foo  bar " = "foo  bar".
Proof. reflexivity. Qed.

Example Trim_all_blank : Strings.Trim Strings.isspace_C "   " = "".
Proof. reflexivity. Qed.

(** C10. For every string [s], the characters of [s] are a run of
    whitespace, then the characters of [Trim(s)], then a run of whitespace:
    nothing inside is changed; [Trim(s)] neither begins nor ends with a
    whitespace character, so all leading and all trailing whitespace is
    gone; and [Trim(Trim(s)) = Trim(s)]. *)
Theorem Trim_strips_and_is_idempotent :
  forall (isspace : ascii -> bool) (s : string),
    (exists l r : list ascii,
        list_ascii_of_string s
        = (l ++ list_ascii_of_string (Strings.Trim isspace s) ++ r)%list
        /\ forallb isspace l = true
        /\ forallb isspace r = true)
    /\ Strings.begins_with_space isspace
         (list_ascii_of_string (Strings.Trim isspace s)) = false
    /\ Strings.ends_with_space isspace
         (list_ascii_of_string (Strings.Trim isspace s)) = false
    /\ Strings.Trim isspace (Strings.Trim isspace s) = Strings.Trim isspace s.
Proof.
  intros isspace s. unfold Strings.Trim. cbv zeta.
  rewrite !list_ascii_of_string_of_list_ascii.
  set (sv := list_ascii_of_string s).
  pose proof (skip_initial_begins isspace sv) as Hb.
  pose proof (skip_terminating_begins isspace _ Hb) as Hb'.
  pose proof
    (skip_terminating_ends isspace (Strings.skip_initial isspace sv)) as He.
  repeat split.
  - destruct (skip_initial_split isspace sv) as [l [Hl Hls]].
    destruct (skip_terminating_split isspace (Strings.skip_initial isspace sv))
      as [r [Hr Hrs]].
    exists l, r. rewrite <- Hr, <- Hl. auto.
  - exact Hb'.
  - exact He.
  - rewrite (skip_initial_fixed isspace _ Hb').
    rewrite (skip_terminating_fixed isspace _ He). reflexivity.
Qed.

(* ===================================================================== *)
(** ** Properties of the builder [Error<E>] *)
(* ===================================================================== *)

Section BuilderFacts.

Context {E : Type}.

(** What one stream insertion does to the builder and to the world. *)
Lemma stream_insert_result (b : Error.t E) (x : Streamable) (w : World) :
  Error.stream_insert b x w
  = (Error.mk (Error.ss_ b ++ run (insert x) w)
              (Error.code_ b) (Error.has_code_ b),
     mkWorld (errno w)).
Proof.
  unfold Error.stream_insert, bind, get_errno, set_errno, ret, run.
  destruct (insert x w) as [txt w']. reflexivity.
Qed.

Lemma op_shl_ResultError_result
      (b : Error.t E) (r : ResultError.t E) (w : World) :
  Error.op_shl b (OpResultError r) w
  = (Error.mk (Error.ss_ b ++ ResultError.message r)
              (if Error.has_code_ b then Error.code_ b
               else ResultError.code r)
              (Error.has_code_ b),
     mkWorld (errno w)).
Proof.
  unfold Error.op_shl. rewrite stream_insert_result.
  destruct b as [s c [|]]; reflexivity.
Qed.

Lemma op_shl_has_code (b : Error.t E) (x : Operand E) (w : World) :
  Error.has_code_ (run (Error.op_shl b x) w) = Error.has_code_ b.
Proof.
  destruct x as [r|t]; unfold run.
  - rewrite op_shl_ResultError_result. reflexivity.
  - simpl. rewrite stream_insert_result. reflexivity.
Qed.

Lemma op_shl_all_has_code (xs : list (Operand E)) :
  forall (b : Error.t E) (w : World),
    Error.has_code_ (run (Error.op_shl_all b xs) w) = Error.has_code_ b.
Proof.
  induction xs as [|x rest IH]; intros b w; [reflexivity|].
  unfold run in *. simpl. unfold bind.
  pose proof (op_shl_has_code b x w) as Hx. unfold run in Hx.
  destruct (Error.op_shl b x w) as [b' w']. simpl in Hx.
  rewrite IH. exact Hx.
Qed.

(** A builder that was given a code at construction keeps it. *)
Lemma op_shl_all_code_kept (xs : list (Operand E)) :
  forall (b : Error.t E) (w : World),
    Error.has_code_ b = true ->
    Error.code_ (run (Error.op_shl_all b xs) w) = Error.code_ b.
Proof.
  induction xs as [|x rest IH]; intros b w Hb; [reflexivity|].
  unfold run in *. simpl. unfold bind.
  destruct x as [r|t].
  - rewrite op_shl_ResultError_result. rewrite IH; simpl; rewrite Hb; reflexivity.
  - simpl. rewrite stream_insert_result. rewrite IH; simpl; [reflexivity | exact Hb].
Qed.

Lemma first_ResultError_app (l1 l2 : list (Arg E)) :
  first_ResultError (l1 ++ l2)%list
  = match first_ResultError l1 with
    | Some r => Some r
    | None => first_ResultError l2
    end.
Proof.
  induction l1 as [|[r|s] l1 IH]; simpl; auto.
Qed.

Lemma last_ResultError_cons (a : Arg E) (args : list (Arg E)) :
  last_ResultError (a :: args)
  = match last_ResultError args with
    | Some r => Some r
    | None => first_ResultError [a]
    end.
Proof.
  unfold last_ResultError. simpl rev. apply first_ResultError_app.
Qed.

Lemma ErrorCode_is_last (args : list (Arg E)) :
  forall code : E, ErrorCode code args = code_or code (last_ResultError args).
Proof.
  induction args as [|[r|s] rest IH]; intros code.
  - reflexivity.
  - simpl ErrorCode. rewrite IH, last_ResultError_cons.
    destruct (last_ResultError rest); reflexivity.
  - simpl ErrorCode. rewrite IH, last_ResultError_cons.
    destruct (last_ResultError rest); reflexivity.
Qed.

(** A builder without a constructor code ends a chain with the code of
    the last [ResultError] of the chain, its own code when there is
    none. *)
Lemma op_shl_all_code_adopted (xs : list (Operand E)) :
  forall (b : Error.t E) (w : World),
    Error.has_code_ b = false ->
    Error.code_ (run (Error.op_shl_all b xs) w)
    = ErrorCode (Error.code_ b) (map Operand_arg xs).
Proof.
  induction xs as [|x rest IH]; intros b w Hb; [reflexivity|].
  unfold run in *. simpl. unfold bind.
  destruct x as [r|t].
  - rewrite op_shl_ResultError_result. rewrite IH; simpl; rewrite Hb; reflexivity.
  - simpl. rewrite stream_insert_result. rewrite IH; simpl; [reflexivity | exact Hb].
Qed.

End BuilderFacts.

Example clobbering_changes_errno :
  errno (exec (insert (clobbering "n/a" 22)) (mkWorld 2)) = 22%Z.
Proof. reflexivity. Qed.

Example chain_ab :
  forall strerror : Z -> string,
    Error.str (H := Errno.code_type strerror)
      (run (Error.op_shl_all
              (Error.default (H := Errno.code_type strerror))
              [OpStream (stream_string "a"); OpStream (stream_string "b")])
           (mkWorld 0))
    = "ab".
Proof. reflexivity. Qed.

(** C1. For every builder: [str()] is the description of the code alone
    when a code is attached and the accumulated message is empty; it is
    the accumulated message, then ": ", then the description of the code,
    when a code is attached and the message is not empty; it is the
    accumulated message itself when no code is attached. *)
Theorem Error_str_cases :
  forall (E : Type) (CT : CodeType E) (b : Error.t E),
    (Error.has_code_ b = true -> Error.ss_ b = "" ->
     Error.str b = print (Error.code_ b))
    /\ (Error.has_code_ b = true -> Error.ss_ b <> "" ->
        Error.str b = Error.ss_ b ++ ": " ++ print (Error.code_ b))
    /\ (Error.has_code_ b = false -> Error.str b = Error.ss_ b).
Proof.
  intros E CT [s c h]; unfold Error.str; simpl.
  repeat split.
  - intros -> ->. reflexivity.
  - intros -> Hs. destruct (String.eqb_spec s ""); [contradiction | reflexivity].
  - intros ->. reflexivity.
Qed.

Lemma Error_str_cases_witness :
  let CT := Errno.code_type Errno.strerror_sample in
  Error.str (Error.mk "" (Errno.of_int 2) true) = "No such file or directory"
  /\ Error.str (Error.mk "failed to read" (Errno.of_int 2) true)
     = "failed to read: No such file or directory"
  /\ Error.str (Error.mk "failed to read" (Errno.of_int 2) false)
     = "failed to read".
Proof.
  intros CT.
  split; [| split].
  - apply (proj1 (Error_str_cases Errno.t CT
                    (Error.mk "" (Errno.of_int 2) true)));
      reflexivity.
  - apply (proj1 (proj2 (Error_str_cases Errno.t CT
                    (Error.mk "failed to read" (Errno.of_int 2) true)))).
    + reflexivity.
    + discriminate.
  - apply (proj2 (proj2 (Error_str_cases Errno.t CT
                    (Error.mk "failed to read" (Errno.of_int 2) false)))).
    reflexivity.
Defined.

(** C2, as stated, fails: [Error() << ResultError{"a", 1}] is a builder
    that has a code, 1; appending [ResultError{"b", 2}] to it does not
    leave that code unchanged, the code becomes 2. *)
Lemma Error_shl_ResultError_adopted_code_counterexample :
  let CT := Errno.code_type Errno.strerror_sample in
  let b := run (Error.op_shl Error.default
                  (OpResultError (ResultError.mk "a" (Errno.of_int 1))))
               (mkWorld 0) in
  let b' := run (Error.op_shl b
                   (OpResultError (ResultError.mk "b" (Errno.of_int 2))))
                (mkWorld 0) in
  Error.code_ b = Errno.of_int 1
  /\ Error.code_ b' = Errno.of_int 2
  /\ Error.code_ b' <> Error.code_ b.
Proof.
  cbv zeta. split; [reflexivity | split; [reflexivity | discriminate]].
Qed.

(** C2, amended. For every builder [b] and every [ResultError] [r]:
    [b << r] sets [b]'s code to [r]'s when [b] was constructed without a
    code ([has_code_] false), also when [b] has adopted a code from an
    earlier [ResultError] in the meantime, which is then replaced; it
    leaves the code unchanged when [b] was constructed with a code; and,
    for a builder that has received only strings and [ResultError]s since
    its construction, it appends [r]'s message to the buffer.  In
    particular [Error() << ResultError{"x", 5}] has code 5 and accumulated
    message "x". *)
Theorem Error_shl_ResultError_code_follows_flag :
  (forall (E : Type) (b : Error.t E) (r : ResultError.t E) (w : World),
      Error.code_ (run (Error.op_shl b (OpResultError r)) w)
      = (if Error.has_code_ b then Error.code_ b else ResultError.code r))
  /\ (forall (E : Type) (c0 : E) (xs : list (Operand E))
             (r : ResultError.t E) (w w' : World),
         let b := run (Error.op_shl_all (fresh false c0) xs) w in
         Error.code_ (run (Error.op_shl b (OpResultError r)) w')
         = ResultError.code r)
  /\ (forall (E : Type) (c0 : E) (xs : list (Operand E))
             (r : ResultError.t E) (w w' : World),
         let b := run (Error.op_shl_all (fresh true c0) xs) w in
         Error.code_ (run (Error.op_shl b (OpResultError r)) w') = c0)
  /\ (forall (E : Type) (h : bool) (c0 : E) (ps : list (Plain E))
             (r : ResultError.t E) (w w' : World),
         let b := built h c0 ps w in
         Error.ss_ (run (Error.op_shl b (OpResultError r)) w')
         = Error.ss_ b ++ ResultError.message r)
  /\ (forall (strerror : Z -> string) (w : World),
         let b' := run (Error.op_shl
                          (Error.default (H := Errno.code_type strerror))
                          (OpResultError
                             (ResultError.mk "x" (Errno.of_int 5)))) w in
         Error.code_ b' = Errno.of_int 5 /\ Error.ss_ b' = "x").
Proof.
  split; [| split; [| split; [| split]]].
  - intros E b r w. unfold run.
    rewrite op_shl_ResultError_result. reflexivity.
  - intros E c0 xs r w w' b.
    assert (Hb : Error.has_code_ b = false)
      by (subst b; rewrite op_shl_all_has_code; reflexivity).
    unfold run. rewrite (op_shl_ResultError_result b r w').
    simpl. rewrite Hb. reflexivity.
  - intros E c0 xs r w w' b.
    assert (Hb : Error.has_code_ b = true)
      by (subst b; rewrite op_shl_all_has_code; reflexivity).
    assert (Hc : Error.code_ b = c0)
      by (subst b; rewrite op_shl_all_code_kept; reflexivity).
    unfold run. rewrite (op_shl_ResultError_result b r w').
    simpl. rewrite Hb. exact Hc.
  - intros E h c0 ps r w w' b. unfold run.
    rewrite (op_shl_ResultError_result b r w'). reflexivity.
  - intros strerror w b'. subst b'. unfold run.
    rewrite op_shl_ResultError_result. split; reflexivity.
Qed.


Example shl_clobbering_operand :
  errno (exec (Error.op_shl (Error.of_code (Errno.of_int 2))
                 (OpStream (clobbering "n/a" 22)))
              (mkWorld 2)) = 2%Z.
Proof. reflexivity. Qed.

(** C6. For every value [n] of [errno] at the call, [ErrnoError()] is a
    builder with an attached code whose [value()] is [n] and with an empty
    accumulated message, and [errno] is left as it was; with [errno] set
    to 2 the code converts to 2 and prints as the platform's description
    of 2. *)
Theorem ErrnoError_captures_errno :
  forall (strerror : Z -> string) (n : Z),
    let b := run ErrnoError (mkWorld n) in
    Errno.value (Error.code_ b) = n
    /\ Error.has_code_ b = true
    /\ Error.ss_ b = ""
    /\ errno (exec ErrnoError (mkWorld n)) = n
    /\ (let b2 := run ErrnoError (mkWorld 2) in
        Errno.to_int (Error.code_ b2) = 2%Z
        /\ Errno.print strerror (Error.code_ b2) = strerror 2%Z
        /\ Error.str (H := Errno.code_type strerror) b2 = strerror 2%Z).
Proof.
  intros strerror n. cbv zeta. repeat split; reflexivity.
Qed.

(** C9. For every builder constructed without a code (whatever value its
    code field starts with) and every chain of appends: [has_code_] is
    still false afterwards, so after a further append of a [ResultError]
    [r], [str()] is the bare accumulated message, with no code suffix,
    while the conversion to [Result] carries [r]'s code.  Appends never
    change [has_code_] of any builder. *)
Theorem Error_has_code_fixed_at_construction :
  forall (E : Type) (CT : CodeType E) (T : Type),
    (forall (b : Error.t E) (xs : list (Operand E)) (w : World),
        Error.has_code_ (run (Error.op_shl_all b xs) w) = Error.has_code_ b)
    /\ (forall (c0 : E) (xs : list (Operand E)) (r : ResultError.t E)
               (w w' : World),
           let b := run (Error.op_shl_all (Error.mk "" c0 false) xs) w in
           let b' := run (Error.op_shl b (OpResultError r)) w' in
           Error.has_code_ b' = false
           /\ Error.ss_ b' = Error.ss_ b ++ ResultError.message r
           /\ Error.str b' = Error.ss_ b ++ ResultError.message r
           /\ Error.to_Result T b'
              = Unexpected
                  (ResultError.mk (Error.ss_ b ++ ResultError.message r)
                                  (ResultError.code r))).
Proof.
  intros E CT T. split.
  - intros b xs w. apply op_shl_all_has_code.
  - intros c0 xs r w w' b b'.
    assert (Hb : Error.has_code_ b = false)
      by (subst b; rewrite op_shl_all_has_code; reflexivity).
    subst b'. unfold run.
    rewrite (op_shl_ResultError_result b r w').
    unfold Error.to_Result, Error.to_expected, Error.str. simpl.
    rewrite Hb. repeat split; reflexivity.
Qed.

(* ===================================================================== *)
(** ** Properties of [ErrorCode] *)
(* ===================================================================== *)

Example ErrorCode_no_ResultError :
  ErrorCode (Errno.of_int 7) [ArgOther "a"; ArgOther "b"] = Errno.of_int 7.
Proof. reflexivity. Qed.

(** C3, as stated, fails: with two [ResultError] arguments of codes 1 and
    2 (in this order) [ErrorCode] returns 2, the code of the last one,
    while the first one has code 1. *)
Lemma ErrorCode_first_counterexample :
  let args := [ArgResultError (ResultError.mk "a" (Errno.of_int 1));
               ArgResultError (ResultError.mk "b" (Errno.of_int 2))] in
  first_ResultError args = Some (ResultError.mk "a" (Errno.of_int 1))
  /\ ErrorCode Errno.default args = Errno.of_int 2
  /\ ErrorCode Errno.default args
     <> code_or Errno.default (first_ResultError args).
Proof.
  cbv zeta. split; [reflexivity | split; [reflexivity | discriminate]].
Qed.

(** C3, amended. For every default code [c] and every argument list,
    [ErrorCode(c, args...)] is the code of the last [ResultError<E>] of
    the list when there is one, and [c] when there is none. *)
Theorem ErrorCode_returns_last_code :
  forall (E : Type) (c : E) (args : list (Arg E)),
    ErrorCode c args
    = match last_ResultError args with
      | Some r => ResultError.code r
      | None => c
      end.
Proof.
  intros E c args. apply (ErrorCode_is_last args c).
Qed.

(* ===================================================================== *)
(** ** Conversion of a builder to a [Result] *)
(* ===================================================================== *)

(** C4, as stated, fails: [Error() << ResultError{"x", 5}] has no code
    attached ([has_code_] is false), yet its conversion carries code 5 and
    not the default code. *)
Lemma Error_to_Result_default_code_counterexample :
  let CT := Errno.code_type Errno.strerror_sample in
  let b := run (Error.op_shl Error.default
                  (OpResultError (ResultError.mk "x" (Errno.of_int 5))))
               (mkWorld 0) in
  Error.has_code_ b = false
  /\ error (Error.to_Result unit b)
     = Some (ResultError.mk "x" (Errno.of_int 5))
  /\ option_map ResultError.code (error (Error.to_Result unit b))
     <> Some (if Error.has_code_ b then Error.code_ b else Errno.default).
Proof.
  cbv zeta. split; [reflexivity | split; [reflexivity | discriminate]].
Qed.

(** C4, amended. For every builder [b] and every success type [T], the
    [Result<T, E>] made from [b] is a failure whose message is [b.str()]
    and whose code is the code held in [b]'s field [code_], whether or not
    a code is attached.  That field holds the code the builder was
    constructed with ([E(0)] for [Error()], [c] for [Error(c)], the code
    given to the private constructor of the formatted factories) and is
    replaced by the code of an appended [ResultError] only when
    [has_code_] is false: a builder constructed with [has_code_] true
    converts with its construction code, one constructed with [has_code_]
    false with the code of the last [ResultError] appended to it, or with
    its construction code when none was appended. *)
Theorem Error_to_Result_carries_stored_code :
  forall (E : Type) (CT : CodeType E) (T : Type),
    (forall b : Error.t E,
        ok (Error.to_Result T b) = false
        /\ error (Error.to_Result T b)
           = Some (ResultError.mk (Error.str b) (Error.code_ b)))
    /\ (forall (b0 : Error.t E) (xs : list (Operand E)) (w : World),
           Error.code_ (run (Error.op_shl_all b0 xs) w)
           = if Error.has_code_ b0 then Error.code_ b0
             else code_or (Error.code_ b0)
                          (last_ResultError (map Operand_arg xs)))
    /\ (forall (c : option E) (xs : list (Operand E)) (w : World),
           Error.code_ (run (Error.op_shl_all (construct c) xs) w)
           = match c with
             | Some c0 => c0
             | None => code_or of_zero (last_ResultError (map Operand_arg xs))
             end)
    /\ (forall (h : bool) (c0 : E) (message : string)
               (xs : list (Operand E)) (w : World),
           Error.code_
             (run (b <- Error.of_parts h c0 message ;;
                   Error.op_shl_all b xs) w)
           = if h then c0
             else code_or c0 (last_ResultError (map Operand_arg xs))).
Proof.
  intros E CT T.
  assert (Hchain :
            forall (b0 : Error.t E) (xs : list (Operand E)) (w : World),
              Error.code_ (run (Error.op_shl_all b0 xs) w)
              = if Error.has_code_ b0 then Error.code_ b0
                else code_or (Error.code_ b0)
                             (last_ResultError (map Operand_arg xs))).
  { intros b0 xs w. destruct (Error.has_code_ b0) eqn:Hb.
    - apply op_shl_all_code_kept. exact Hb.
    - rewrite op_shl_all_code_adopted by exact Hb. apply ErrorCode_is_last. }
  split; [| split; [exact Hchain | split]].
  - intros b. split; reflexivity.
  - intros [c0|] xs w; simpl construct; rewrite Hchain; reflexivity.
  - intros h c0 message xs w.
    unfold run, Error.of_parts, Error.op_shl, bind.
    rewrite stream_insert_result.
    specialize (Hchain (Error.mk ("" ++ message) c0 h) xs
                       (mkWorld (errno w))).
    unfold run in Hchain. simpl in Hchain |- *. exact Hchain.
Qed.

Example chained_propagation :
  let CT := Errno.code_type Errno.strerror_sample in
  Error.to_Result unit
    (run (Error.op_shl_all Error.default
            [OpStream (stream_string "context: ");
             OpResultError (ResultError.mk "low-level" (Errno.of_int 13))])
         (mkWorld 0))
  = Unexpected (ResultError.mk "context: low-level" (Errno.of_int 13)).
Proof. reflexivity. Qed.

(* ===================================================================== *)
(** ** The formatted factory *)
(* ===================================================================== *)

Lemma ErrorCode_without_ResultError {E : Type} (args : list (Arg E)) :
  forall c : E, first_ResultError args = None -> ErrorCode c args = c.
Proof.
  induction args as [|[r|s] rest IH]; intros c Hn; simpl in *.
  - reflexivity.
  - discriminate.
  - apply IH. exact Hn.
Qed.

Lemma ErrorfImpl_result
      (format : string -> list (Arg Errno.t) -> string)
      (fmt : string) (args : list (Arg Errno.t)) (w : World) :
  run (ErrorfImpl format fmt args) w
  = Error.mk (format fmt args) (ErrorCode Errno.default args) false.
Proof.
  unfold ErrorfImpl, Error.of_parts, Error.op_shl, run.
  rewrite stream_insert_result. reflexivity.
Qed.

(** C7, as stated, fails: for the format "{}" and a captured
    [ResultError{"x", 5}] as its argument, the formatted factory converts
    to an error of code 5, the plain builder with the rendered text
    appended to an error of code 0. *)
Lemma ErrorfImpl_plain_builder_counterexample :
  let CT := Errno.code_type Errno.strerror_sample in
  let args := [ArgResultError (ResultError.mk "x" (Errno.of_int 5))] in
  let formatted := run (ErrorfImpl fmt_format "{}" args) (mkWorld 0) in
  let plain := run (Error.op_shl Error.default
                      (OpStream (stream_string (fmt_format "{}" args))))
                   (mkWorld 0) in
  Error.to_Result unit formatted
  = Unexpected (ResultError.mk "x" (Errno.of_int 5))
  /\ Error.to_Result unit plain
     = Unexpected (ResultError.mk "x" (Errno.of_int 0))
  /\ Error.to_Result unit formatted <> Error.to_Result unit plain.
Proof.
  cbv zeta. split; [reflexivity | split; [reflexivity | discriminate]].
Qed.

(** C7, amended. For every format string and argument list, the builder
    of the formatted factory has the same [str()] as a plain default
    builder with the rendered text appended, namely the rendered text; it
    converts to the [ResultError] of that text and of the code of the last
    [ResultError<Errno>] among the arguments (the default code when there
    is none), which is the plain builder's [ResultError] when no argument
    is a [ResultError<Errno>].  In particular
    [Errorf("failed to read {}", "path")] converts to a failure of message
    "failed to read path". *)
Theorem ErrorfImpl_refines_plain_builder :
  forall (strerror : Z -> string) (T : Type),
    let CT := Errno.code_type strerror in
    (forall (format : string -> list (Arg Errno.t) -> string)
            (fmt : string) (args : list (Arg Errno.t)) (w : World),
        let formatted := run (ErrorfImpl format fmt args) w in
        let plain := run (Error.op_shl Error.default
                            (OpStream (stream_string (format fmt args)))) w in
        Error.str formatted = Error.str plain
        /\ Error.str formatted = format fmt args
        /\ Error.to_Result T formatted
           = Unexpected
               (ResultError.mk (format fmt args)
                  (code_or Errno.default (last_ResultError args)))
        /\ (first_ResultError args = None ->
            Error.to_Result T formatted = Error.to_Result T plain))
    /\ (forall w : World,
           let r := Error.to_Result T
                      (run (ErrorfImpl fmt_format "failed to read {}"
                              [ArgOther "path"]) w) in
           ok r = false
           /\ option_map ResultError.message (error r)
              = Some "failed to read path").
Proof.
  intros strerror T CT. split.
  - intros format fmt args w formatted plain.
    assert (Hf : formatted
                 = Error.mk (format fmt args)
                            (ErrorCode Errno.default args) false)
      by apply ErrorfImpl_result.
    assert (Hp : plain = Error.mk (format fmt args) Errno.default false).
    { subst plain. unfold Error.op_shl, run. rewrite stream_insert_result.
      reflexivity. }
    rewrite Hf, Hp.
    unfold Error.to_Result, Error.to_expected, Error.str. simpl.
    repeat split.
    + rewrite ErrorCode_is_last. reflexivity.
    + intros Hn. rewrite (ErrorCode_without_ResultError args _ Hn).
      reflexivity.
  - intros w r. subst r. rewrite ErrorfImpl_result. split; reflexivity.
Qed.

Lemma ErrorfImpl_refines_plain_builder_witness :
  let CT := Errno.code_type Errno.strerror_sample in
  let args : list (Arg Errno.t) := [ArgOther "path"] in
  first_ResultError args = None
  /\ Error.to_Result unit
       (run (ErrorfImpl fmt_format "failed to read {}" args) (mkWorld 2))
     = Error.to_Result unit
         (run (Error.op_shl Error.default
                 (OpStream
                    (stream_string (fmt_format "failed to read {}" args))))
              (mkWorld 2)).
Proof.
  intros CT args. split; [reflexivity|].
  apply (proj1 (ErrorfImpl_refines_plain_builder
                  Errno.strerror_sample unit)
               fmt_format "failed to read {}" args (mkWorld 2)).
  reflexivity.
Defined.

(* ===================================================================== *)
(** ** Propagation with [OkOrFail] *)
(* ===================================================================== *)

(** C8. For every failing [Result<T, E>] [v]: [Fail(v)] is an object
    whose conversion to a code type [S] is [v.error().code()] (converted
    to [S]) and whose conversion to [Result<U, E>], for any [U], is a
    failure holding the [ResultError] of [v]: same message, same code. *)
Theorem OkOrFail_Fail_carries_error :
  forall (T E S U : Type) (conv : E -> S) (v : Result T E),
    ok v = false ->
    exists (e : ResultError.t E) (f : OkOrFail.t T E),
      error v = Some e
      /\ OkOrFail.Fail v = Some f
      /\ OkOrFail.to_code conv f = Some (conv (ResultError.code e))
      /\ exists r' : Result U E,
          OkOrFail.to_Result U f = Some r'
          /\ ok r' = false
          /\ error r' = Some e.
Proof.
  intros T E S U conv [x|e] Hv; [discriminate|].
  exists e, (OkOrFail.mk (Unexpected e)).
  repeat split.
  exists (Unexpected e). destruct e as [m c]. repeat split.
Qed.

Lemma OkOrFail_Fail_carries_error_witness :
  let e := ResultError.mk "low-level" (Errno.of_int 13) in
  let v : Result string Errno.t := Unexpected e in
  ok v = false
  /\ exists (e' : ResultError.t Errno.t) (f : OkOrFail.t string Errno.t),
      error v = Some e'
      /\ OkOrFail.Fail v = Some f
      /\ OkOrFail.to_code Errno.to_int f
         = Some (Errno.to_int (ResultError.code e'))
      /\ exists r' : Result unit Errno.t,
          OkOrFail.to_Result unit f = Some r'
          /\ ok r' = false
          /\ error r' = Some e'.
Proof.
  intros e v. split; [reflexivity|].
  apply (OkOrFail_Fail_carries_error string Errno.t Z unit Errno.to_int v).
  reflexivity.
Defined.

(* ===================================================================== *)
(** ** Strings: auxiliary facts *)
(* ===================================================================== *)

Lemma string_app_assoc (a b c : string) : (a ++ b) ++ c = a ++ b ++ c.
Proof.
  induction a as [|ch a IH]; simpl; [reflexivity | rewrite IH; reflexivity].
Qed.



Lemma list_ascii_of_string_app (a b : string) :
  list_ascii_of_string (a ++ b)
  = (list_ascii_of_string a ++ list_ascii_of_string b)%list.
Proof.
  induction a as [|ch a IH]; simpl; [reflexivity | rewrite IH; reflexivity].
Qed.

(* ===================================================================== *)
(** ** More on [Trim] *)
(* ===================================================================== *)

Section TrimMore.

Local Open Scope list_scope.

Variable isspace : ascii -> bool.

Lemma skip_initial_app_spaces (l sv : Strings.string_view) :
  forallb isspace l = true ->
  Strings.skip_initial isspace (l ++ sv) = Strings.skip_initial isspace sv.
Proof.
  induction l as [|c l IH]; simpl; intros Hl; [reflexivity|].
  apply andb_true_iff in Hl. destruct Hl as [Hc Hl].
  rewrite Hc. apply IH. exact Hl.
Qed.

Lemma remove_suffix_snoc (sv : Strings.string_view) (c : ascii) :
  Strings.remove_suffix 1 (sv ++ [c]) = sv.
Proof.
  unfold Strings.remove_suffix. rewrite length_app. simpl.
  replace (length sv + 1 - 1) with (length sv + 0) by lia.
  rewrite firstn_app_2. simpl. apply app_nil_r.
Qed.

Lemma skip_terminating_snoc (sv : Strings.string_view) (c : ascii) :
  Strings.skip_terminating isspace (sv ++ [c])
  = if isspace c then Strings.skip_terminating isspace sv else sv ++ [c].
Proof.
  destruct (sv ++ [c]) as [|d rest] eqn:Hsv.
  - destruct sv; discriminate.
  - simp skip_terminating.
    assert (Hlast : last rest d = c).
    { rewrite <- (last_cons_default d c rest), <- Hsv. apply last_last. }
    rewrite Hlast.
    destruct (isspace c); simpl; [|reflexivity].
    rewrite <- Hsv, remove_suffix_snoc. reflexivity.
Qed.

Lemma skip_terminating_app_spaces (sv r : Strings.string_view) :
  forallb isspace r = true ->
  Strings.skip_terminating isspace (sv ++ r)
  = Strings.skip_terminating isspace sv.
Proof.
  induction r as [|c r IH] using rev_ind; intros Hr.
  - rewrite app_nil_r. reflexivity.
  - rewrite forallb_app in Hr. apply andb_true_iff in Hr.
    destruct Hr as [Hr Hc]. simpl in Hc. rewrite andb_true_r in Hc.
    rewrite app_assoc, skip_terminating_snoc, Hc. apply IH. exact Hr.
Qed.

(** The two loops applied to whitespace, then a body with clean ends,
    then whitespace, leave the body. *)
Lemma loops_on_padded_body (l t r : Strings.string_view) :
  forallb isspace l = true ->
  forallb isspace r = true ->
  Strings.begins_with_space isspace t = false ->
  Strings.ends_with_space isspace t = false ->
  Strings.skip_terminating isspace
    (Strings.skip_initial isspace (l ++ t ++ r)) = t.
Proof.
  intros Hl Hr Hb He.
  rewrite skip_initial_app_spaces by exact Hl.
  destruct t as [|c t'].
  - simpl app.
    rewrite <- (app_nil_r r), skip_initial_app_spaces by exact Hr.
    reflexivity.
  - rewrite skip_initial_fixed by exact Hb.
    rewrite skip_terminating_app_spaces by exact Hr.
    apply skip_terminating_fixed. exact He.
Qed.

Lemma Trim_of_padded_body (s : string) (l t r : Strings.string_view) :
  list_ascii_of_string s = l ++ t ++ r ->
  forallb isspace l = true ->
  forallb isspace r = true ->
  Strings.begins_with_space isspace t = false ->
  Strings.ends_with_space isspace t = false ->
  Strings.Trim isspace s = string_of_list_ascii t.
Proof.
  intros Hs Hl Hr Hb He. unfold Strings.Trim. cbv zeta.
  rewrite Hs, loops_on_padded_body by assumption. reflexivity.
Qed.

(** The decomposition of an input around its trimmed text. *)
Lemma Trim_decomposition (s : string) :
  exists l r : Strings.string_view,
    list_ascii_of_string s
    = l ++ list_ascii_of_string (Strings.Trim isspace s) ++ r
    /\ forallb isspace l = true
    /\ forallb isspace r = true
    /\ Strings.begins_with_space isspace
         (list_ascii_of_string (Strings.Trim isspace s)) = false
    /\ Strings.ends_with_space isspace
         (list_ascii_of_string (Strings.Trim isspace s)) = false.
Proof.
  unfold Strings.Trim. cbv zeta.
  rewrite !list_ascii_of_string_of_list_ascii.
  set (sv := list_ascii_of_string s).
  destruct (skip_initial_split isspace sv) as [l [Hl Hls]].
  destruct (skip_terminating_split isspace (Strings.skip_initial isspace sv))
    as [r [Hr Hrs]].
  exists l, r. rewrite <- Hr, <- Hl.
  repeat split; auto.
  - apply skip_terminating_begins, skip_initial_begins.
  - apply skip_terminating_ends.
Qed.

End TrimMore.

(** [Trim] is the only way to cut an input into whitespace, a text that
    neither begins nor ends with whitespace, and whitespace: the middle
    part of every such cut is [Trim(s)]. *)
Theorem Trim_unique :
  forall (isspace : ascii -> bool) (s : string) (l t r : list ascii),
    list_ascii_of_string s = (l ++ t ++ r)%list ->
    forallb isspace l = true ->
    forallb isspace r = true ->
    Strings.begins_with_space isspace t = false ->
    Strings.ends_with_space isspace t = false ->
    Strings.Trim isspace s = string_of_list_ascii t.
Proof.
  intros isspace s l t r. apply Trim_of_padded_body.
Qed.

Lemma Trim_unique_witness :
  Strings.Trim Strings.isspace_C " a b  " = "a b".
Proof.
  apply (Trim_unique Strings.isspace_C " a b  "
           (list_ascii_of_string " ") (list_ascii_of_string "a b")
           (list_ascii_of_string "  ")); reflexivity.
Defined.

(** [Trim(s)] is empty exactly when every character of [s] is
    whitespace (the empty input included). *)
Theorem Trim_empty_iff_blank :
  forall (isspace : ascii -> bool) (s : string),
    Strings.Trim isspace s = ""
    <-> forallb isspace (list_ascii_of_string s) = true.
Proof.
  intros isspace s. split.
  - intros Ht.
    destruct (Trim_decomposition isspace s) as [l [r [Hs [Hl [Hr _]]]]].
    rewrite Ht in Hs. simpl in Hs. rewrite Hs, forallb_app, Hl, Hr.
    reflexivity.
  - intros Hall.
    apply (Trim_of_padded_body isspace s (list_ascii_of_string s) [] []);
      auto.
    rewrite app_nil_r. reflexivity.
Qed.

(** [Trim(s)] is [s] itself exactly when [s] neither begins nor ends with
    a whitespace character. *)
Theorem Trim_fixed_iff_clean_ends :
  forall (isspace : ascii -> bool) (s : string),
    Strings.Trim isspace s = s
    <-> (Strings.begins_with_space isspace (list_ascii_of_string s) = false
         /\ Strings.ends_with_space isspace (list_ascii_of_string s) = false).
Proof.
  intros isspace s. split.
  - intros Ht.
    destruct (Trim_decomposition isspace s) as [l [r [_ [_ [_ [Hb He]]]]]].
    rewrite Ht in Hb, He. split; assumption.
  - intros [Hb He].
    rewrite (Trim_of_padded_body isspace s [] (list_ascii_of_string s) []);
      auto.
    + apply string_of_list_ascii_of_string.
    + simpl. rewrite app_nil_r. reflexivity.
Qed.

(** Whitespace put before and after an input does not change what
    [Trim] returns. *)
Theorem Trim_ignores_padding :
  forall (isspace : ascii -> bool) (s : string) (l r : list ascii),
    forallb isspace l = true ->
    forallb isspace r = true ->
    Strings.Trim isspace
      (string_of_list_ascii l ++ s ++ string_of_list_ascii r)
    = Strings.Trim isspace s.
Proof.
  intros isspace s l r Hl Hr.
  destruct (Trim_decomposition isspace s) as [l' [r' [Hs [Hl' [Hr' [Hb He]]]]]].
  rewrite <- (string_of_list_ascii_of_string (Strings.Trim isspace s)).
  apply (Trim_of_padded_body isspace _ (l ++ l')%list _ (r' ++ r)%list); auto.
  - rewrite !list_ascii_of_string_app, !list_ascii_of_string_of_list_ascii.
    rewrite Hs, <- !app_assoc. reflexivity.
  - rewrite forallb_app, Hl, Hl'. reflexivity.
  - rewrite forallb_app, Hr', Hr. reflexivity.
Qed.

Lemma Trim_ignores_padding_witness :
  Strings.Trim Strings.isspace_C (" " ++ "a  b " ++ "  ")
  = Strings.Trim Strings.isspace_C "a  b ".
Proof.
  apply (Trim_ignores_padding Strings.isspace_C "a  b "
           (list_ascii_of_string " ") (list_ascii_of_string "  "));
    reflexivity.
Defined.

(* ===================================================================== *)
(** ** [Join] *)
(* ===================================================================== *)

Section JoinFacts.

Context {A Sep : Type}.
Variable show : A -> string.
Variable show_sep : Sep -> string.





End JoinFacts.





(* ===================================================================== *)
(** ** [ConsumePrefix] and [ConsumeSuffix] *)
(* ===================================================================== *)

Section ConsumeFacts.

Local Open Scope list_scope.

Lemma remove_prefix_app (p rest : Strings.string_view) :
  Strings.remove_prefix (length p) (p ++ rest) = rest.
Proof.
  unfold Strings.remove_prefix.
  induction p as [|c p IH]; simpl; [reflexivity | exact IH].
Qed.

Lemma remove_suffix_app (front suffix : Strings.string_view) :
  Strings.remove_suffix (length suffix) (front ++ suffix) = front.
Proof.
  unfold Strings.remove_suffix. rewrite length_app.
  replace (length front + length suffix - length suffix)
    with (length front + 0) by lia.
  rewrite firstn_app_2. simpl. apply app_nil_r.
Qed.

Lemma StartsWith_iff (s p : Strings.string_view) :
  Strings.StartsWith s p = true <-> exists rest, s = p ++ rest.
Proof.
  revert s. induction p as [|c p IH]; intros s.
  - destruct s; simpl; split; eauto.
  - destruct s as [|d s]; simpl.
    + split; [discriminate | intros [rest Hr]; discriminate].
    + rewrite andb_true_iff, IH. split.
      * intros [Hc [rest Hr]]. apply Ascii.eqb_eq in Hc. subst.
        exists rest. reflexivity.
      * intros [rest Hr]. injection Hr as Hd Hs. subst. split.
        -- apply Ascii.eqb_refl.
        -- exists rest. reflexivity.
Qed.

Lemma EndsWith_iff (s suffix : Strings.string_view) :
  Strings.EndsWith s suffix = true <-> exists front, s = front ++ suffix.
Proof.
  unfold Strings.EndsWith. rewrite StartsWith_iff. split.
  - intros [rest Hr]. exists (rev rest).
    rewrite <- (rev_involutive s), Hr, rev_app_distr, rev_involutive.
    reflexivity.
  - intros [front Hf]. exists (rev front). rewrite Hf, rev_app_distr.
    reflexivity.
Qed.

End ConsumeFacts.

(** For any [StartsWith] that tests what its name says: [ConsumePrefix]
    answers [true] exactly on the views [prefix ++ rest], and then leaves
    [rest] in [*s]; otherwise it answers [false] and leaves [*s] as it
    was. *)
Theorem ConsumePrefix_removes_exactly_the_prefix :
  forall (StartsWith : Strings.string_view -> Strings.string_view -> bool),
    (forall s p, StartsWith s p = true <-> exists rest, s = (p ++ rest)%list) ->
    forall s prefix : Strings.string_view,
      (forall rest, Strings.ConsumePrefix StartsWith (prefix ++ rest)%list prefix
                    = (true, rest))
      /\ (fst (Strings.ConsumePrefix StartsWith s prefix) = true ->
          s = (prefix ++ snd (Strings.ConsumePrefix StartsWith s prefix))%list)
      /\ (fst (Strings.ConsumePrefix StartsWith s prefix) = false ->
          snd (Strings.ConsumePrefix StartsWith s prefix) = s
          /\ ~ exists rest, s = (prefix ++ rest)%list).
Proof.
  intros StartsWith Hspec s prefix. unfold Strings.ConsumePrefix.
  split; [| split].
  - intros rest.
    assert (Ht : StartsWith (prefix ++ rest)%list prefix = true)
      by (apply Hspec; exists rest; reflexivity).
    rewrite Ht. simpl. rewrite remove_prefix_app. reflexivity.
  - destruct (StartsWith s prefix) eqn:Hsw; simpl; [|discriminate].
    intros _. apply Hspec in Hsw. destruct Hsw as [rest ->].
    rewrite remove_prefix_app. reflexivity.
  - destruct (StartsWith s prefix) eqn:Hsw; simpl; [discriminate|].
    intros _. split; [reflexivity|].
    intros Hex. apply Hspec in Hex. congruence.
Qed.

Lemma ConsumePrefix_removes_exactly_the_prefix_witness :
  Strings.ConsumePrefix Strings.StartsWith
    (list_ascii_of_string "foo.bar") (list_ascii_of_string "foo.")
  = (true, list_ascii_of_string "bar").
Proof.
  apply (proj1 (ConsumePrefix_removes_exactly_the_prefix
                  Strings.StartsWith StartsWith_iff
                  (list_ascii_of_string "foo.bar")
                  (list_ascii_of_string "foo."))
               (list_ascii_of_string "bar")).
Defined.

(** For any [EndsWith] that tests what its name says: [ConsumeSuffix]
    answers [true] exactly on the views [front ++ suffix], and then leaves
    [front] in [*s]; otherwise it answers [false] and leaves [*s] as it
    was. *)
Theorem ConsumeSuffix_removes_exactly_the_suffix :
  forall (EndsWith : Strings.string_view -> Strings.string_view -> bool),
    (forall s x, EndsWith s x = true <-> exists front, s = (front ++ x)%list) ->
    forall s suffix : Strings.string_view,
      (forall front, Strings.ConsumeSuffix EndsWith (front ++ suffix)%list suffix
                     = (true, front))
      /\ (fst (Strings.ConsumeSuffix EndsWith s suffix) = true ->
          s = (snd (Strings.ConsumeSuffix EndsWith s suffix) ++ suffix)%list)
      /\ (fst (Strings.ConsumeSuffix EndsWith s suffix) = false ->
          snd (Strings.ConsumeSuffix EndsWith s suffix) = s
          /\ ~ exists front, s = (front ++ suffix)%list).
Proof.
  intros EndsWith Hspec s suffix. unfold Strings.ConsumeSuffix.
  split; [| split].
  - intros front.
    assert (Ht : EndsWith (front ++ suffix)%list suffix = true)
      by (apply Hspec; exists front; reflexivity).
    rewrite Ht. simpl. rewrite remove_suffix_app. reflexivity.
  - destruct (EndsWith s suffix) eqn:Hsw; simpl; [|discriminate].
    intros _. apply Hspec in Hsw. destruct Hsw as [front ->].
    rewrite remove_suffix_app. reflexivity.
  - destruct (EndsWith s suffix) eqn:Hsw; simpl; [discriminate|].
    intros _. split; [reflexivity|].
    intros Hex. apply Hspec in Hex. congruence.
Qed.

Lemma ConsumeSuffix_removes_exactly_the_suffix_witness :
  Strings.ConsumeSuffix Strings.EndsWith
    (list_ascii_of_string "foo.bar") (list_ascii_of_string ".bar")
  = (true, list_ascii_of_string "foo").
Proof.
  apply (proj1 (ConsumeSuffix_removes_exactly_the_suffix
                  Strings.EndsWith EndsWith_iff
                  (list_ascii_of_string "foo.bar")
                  (list_ascii_of_string ".bar"))
               (list_ascii_of_string "foo")).
Defined.

(* ===================================================================== *)
(** ** Equality of [ResultError] *)
(* ===================================================================== *)

(** When [==] on the code type decides equality of codes, [==] on
    [ResultError] holds exactly for equal message and equal code, and
    [!=] is its negation: changing the message or the code breaks
    equality. *)
Theorem ResultError_eq_iff_same_message_and_code :
  forall (E : Type) (code_eq : E -> E -> bool),
    (forall a b : E, code_eq a b = true <-> a = b) ->
    forall r1 r2 : ResultError.t E,
      (ResultError.op_eq code_eq r1 r2 = true
       <-> (ResultError.message r1 = ResultError.message r2
            /\ ResultError.code r1 = ResultError.code r2))
      /\ (ResultError.op_eq code_eq r1 r2 = true <-> r1 = r2)
      /\ (ResultError.op_ne code_eq r1 r2 = true <-> r1 <> r2).
Proof.
  intros E code_eq Hdec [m1 c1] [m2 c2].
  unfold ResultError.op_ne, ResultError.op_eq. simpl.
  assert (Heq : (String.eqb m1 m2 && code_eq c1 c2)%bool = true
                <-> (m1 = m2 /\ c1 = c2)).
  { rewrite andb_true_iff, String.eqb_eq, Hdec. reflexivity. }
  split; [exact Heq | split].
  - rewrite Heq. split.
    + intros [-> ->]. reflexivity.
    + intros H. injection H as -> ->. split; reflexivity.
  - rewrite negb_true_iff, <- not_true_iff_false, Heq. split.
    + intros Hn H. apply Hn. injection H as -> ->. split; reflexivity.
    + intros Hn [-> ->]. apply Hn. reflexivity.
Qed.

Lemma Errno_eq_decides (a b : Errno.t) :
  Z.eqb (Errno.to_int a) (Errno.to_int b) = true <-> a = b.
Proof.
  destruct a as [x], b as [y]. unfold Errno.to_int, Errno.value. simpl.
  rewrite Z.eqb_eq. split; [intros ->; reflexivity | intros H; injection H; auto].
Qed.

Lemma ResultError_eq_iff_same_message_and_code_witness :
  let code_eq := fun a b => Z.eqb (Errno.to_int a) (Errno.to_int b) in
  ResultError.op_ne code_eq
    (ResultError.mk "x" (Errno.of_int 5)) (ResultError.mk "x" (Errno.of_int 6))
  = true
  <-> ResultError.mk "x" (Errno.of_int 5) <> ResultError.mk "x" (Errno.of_int 6).
Proof.
  intros code_eq.
  apply (ResultError_eq_iff_same_message_and_code Errno.t code_eq
           Errno_eq_decides).
Defined.

(* ===================================================================== *)
(** ** Chains of appends *)
(* ===================================================================== *)

Section ChainFacts.

Context {E : Type}.

Lemma World_eta (w : World) : mkWorld (errno w) = w.
Proof. destruct w. reflexivity. Qed.

(** One append: the buffer grows by the operand's text, the world is
    back as it was. *)
Lemma op_shl_result (b : Error.t E) (x : Operand E) (w : World) :
  Error.op_shl b x w
  = (Error.mk (Error.ss_ b ++ Operand_text w x)
              (Error.code_ (run (Error.op_shl b x) w))
              (Error.has_code_ b),
     w).
Proof.
  unfold run. destruct x as [r|t].
  - rewrite op_shl_ResultError_result, World_eta. reflexivity.
  - simpl. rewrite stream_insert_result, World_eta. reflexivity.
Qed.



End ChainFacts.


(** On a builder that has received only strings and [ResultError]s since
    its construction, appending a text in two pieces is appending it in
    one: [b << s1 << s2] and [b << (s1 + s2)] are the same builder. *)
Theorem Error_append_strings_splits :
  forall (E : Type) (h : bool) (c0 : E) (ps : list (Plain E))
         (s1 s2 : string) (w w' : World),
    let b := built h c0 ps w in
    run (Error.op_shl_all b [OpStream (stream_string s1);
                             OpStream (stream_string s2)]) w'
    = run (Error.op_shl b (OpStream (stream_string (s1 ++ s2)))) w'.
Proof.
  intros E h c0 ps s1 s2 w w' b. unfold run.
  cbn [Error.op_shl_all Error.op_shl]. unfold bind.
  rewrite !stream_insert_result.
  cbn [Error.ss_ Error.code_ Error.has_code_ fst].
  rewrite string_app_assoc. reflexivity.
Qed.

(** Re-throwing: a fresh [Error()] to which a captured [ResultError] is
    appended converts to that very [ResultError], message not suffixed a
    second time and code kept; with a context text appended first, the
    message is the context followed by the captured message and the code
    is still the captured one. *)
Theorem Error_rethrow_round_trip :
  forall (E : Type) (CT : CodeType E) (T : Type)
         (r : ResultError.t E) (context : string) (w : World),
    Error.to_Result T
      (run (Error.op_shl Error.default (OpResultError r)) w)
    = Unexpected r
    /\ Error.to_Result T
         (run (Error.op_shl_all Error.default
                 [OpStream (stream_string context); OpResultError r]) w)
       = Unexpected
           (ResultError.mk (context ++ ResultError.message r)
                           (ResultError.code r)).
Proof.
  intros E CT T [m c] context w. split.
  - unfold run. rewrite op_shl_ResultError_result. reflexivity.
  - unfold run. cbn [Error.op_shl_all]. unfold bind.
    rewrite op_shl_result, op_shl_ResultError_result. reflexivity.
Qed.


(** Overriding: a builder constructed with a code [c] to which a captured
    [ResultError] [r] is appended converts to an error of code [c], not
    [r]'s, whose message is [r]'s message followed by ": " and the
    description of [c] (the description alone when [r]'s message is
    empty). *)
Theorem Error_with_code_overrides_captured_code :
  forall (E : Type) (CT : CodeType E) (T : Type)
         (c : E) (r : ResultError.t E) (w : World),
    Error.to_Result T
      (run (Error.op_shl (Error.of_code c) (OpResultError r)) w)
    = Unexpected
        (ResultError.mk
           (if String.eqb (ResultError.message r) ""
            then print c
            else ResultError.message r ++ ": " ++ print c)
           c).
Proof.
  intros E CT T c [m c'] w. unfold run.
  rewrite op_shl_ResultError_result. reflexivity.
Qed.

(* ===================================================================== *)
(** ** The formatted factory with [errno] *)
(* ===================================================================== *)

(** When the formatter leaves [errno] as it found it, [ErrnoErrorfImpl]
    is [ErrnoError() << rendered text] in either evaluation order of its
    constructor arguments: a code is attached, it is the [errno] of the
    call (never a code of a [ResultError] among the arguments), the buffer
    is the rendered text, and [errno] is unchanged. *)
Theorem ErrnoErrorfImpl_is_ErrnoError_with_text :
  forall (format : string -> list (Arg Errno.t) -> M string)
         (code_first : bool)
         (fmt : string) (args : list (Arg Errno.t)) (w : World),
    errno (exec (format fmt args) w) = errno w ->
    run (ErrnoErrorfImpl format code_first fmt args) w
    = Error.mk (run (format fmt args) w) (Errno.of_int (errno w)) true
    /\ run (ErrnoErrorfImpl format code_first fmt args) w
       = run (b0 <- ErrnoError ;;
              Error.op_shl b0
                (OpStream (stream_string (run (format fmt args) w)))) w
    /\ errno (exec (ErrnoErrorfImpl format code_first fmt args) w) = errno w.
Proof.
  intros format code_first fmt args w Hf.
  assert (Hplain :
            (b0 <- ErrnoError ;;
             Error.op_shl b0
               (OpStream (stream_string (run (format fmt args) w)))) w
            = (Error.mk (run (format fmt args) w)
                        (Errno.of_int (errno w)) true, w)).
  { unfold ErrnoError, get_errno, ret. unfold bind. cbv beta iota.
    rewrite op_shl_result. reflexivity. }
  unfold run, exec in *. rewrite Hplain.
  unfold ErrnoErrorfImpl, Error.of_parts, get_errno.
  destruct code_first; unfold bind; cbv beta iota;
    destruct (format fmt args w) as [text w1] eqn:Hfmt;
    simpl in Hf; rewrite op_shl_result; simpl; rewrite ?Hf;
    repeat split; reflexivity.
Qed.

Lemma ErrnoErrorfImpl_is_ErrnoError_with_text_witness :
  let format := fun fmt args => ret (fmt_format (E := Errno.t) fmt args) in
  let args : list (Arg Errno.t) := [ArgOther "path"] in
  run (ErrnoErrorfImpl format false "failed to read {}" args) (mkWorld 2)
  = Error.mk "failed to read path" (Errno.of_int 2) true.
Proof.
  intros format args.
  apply (ErrnoErrorfImpl_is_ErrnoError_with_text
           format false "failed to read {}" args (mkWorld 2)).
  reflexivity.
Defined.

(* ===================================================================== *)
(** ** Propagation of a builder's error *)
(* ===================================================================== *)

(** An error made from a builder [b] in a function returning
    [Result<T, E>], passed through [Fail] to a caller returning
    [Result<U, E>] and again to one returning [Result<V, E>], is at each
    level the [Result] the builder converts to directly: the message stays
    [b.str()], the bare code is [b]'s stored code. *)
Theorem OkOrFail_propagates_builder_error :
  forall (E : Type) (CT : CodeType E) (T U V : Type) (b : Error.t E),
    exists (f : OkOrFail.t T E) (f' : OkOrFail.t U E),
      OkOrFail.Fail (Error.to_Result T b) = Some f
      /\ OkOrFail.to_Result U f = Some (Error.to_Result U b)
      /\ OkOrFail.Fail (Error.to_Result U b) = Some f'
      /\ OkOrFail.to_Result V f' = Some (Error.to_Result V b)
      /\ OkOrFail.to_code (fun c => c) f' = Some (Error.code_ b)
      /\ OkOrFail.ErrorMessage (Error.to_Result V b) = Some (Error.str b).
Proof.
  intros E CT T U V b.
  exists (OkOrFail.mk (Error.to_Result T b)),
         (OkOrFail.mk (Error.to_Result U b)).
  repeat split.
Qed.
